(** * Wash-trading detection: a shallow embedding of
      [Dashboard/assets/data/main.py] and the properties of its five rules.

    The script reads a transaction table, builds one [networkx.DiGraph] per
    token, enumerates the strongly connected components of each graph and
    runs five detection rules on every component.  The embedding keeps the
    script's data as it is: Python dictionaries are insertion-ordered
    association lists, Python sets are finite sets ([gset]) whose iteration
    order is chosen by the interpreter, prices are binary64 floats. *)

From Stdlib Require Import Floats ZArith.
From stdpp Require Import base option list sets gmap strings.

Open Scope string_scope.
Open Scope list_scope.

(** ** Python dictionaries

    A [dict] (and a [defaultdict]) iterates in insertion order; assigning to
    an existing key keeps the key's position. *)

Module OrderedDict.
Section ordered_dict.
Context {K V : Type} `{EqDecision K}.
Implicit Types (k : K) (v : V) (d : list (K * V)).

(** [d.get(k)] *)
Fixpoint od_get k d : option V :=
  match d with
  | [] => None
  | (k', v') :: d' => if decide (k = k') then Some v' else od_get k d'
  end.

(** [d[k] = v] *)
Fixpoint od_set k v d : list (K * V) :=
  match d with
  | [] => [(k, v)]
  | (k', v') :: d' =>
      if decide (k = k') then (k, v) :: d' else (k', v') :: od_set k v d'
  end.

(** [k in d] *)
Definition od_mem k d : bool := bool_decide (is_Some (od_get k d)).

(** [list(d)] *)
Definition od_keys d : list K := d.*1.

(** [d[k] = f(d[k])] on a [defaultdict] whose factory returns [dflt] *)
Definition od_update k (f : V → V) (dflt : V) d : list (K * V) :=
  od_set k (f (default dflt (od_get k d))) d.

End ordered_dict.
End OrderedDict.
Export OrderedDict.

(** ** The transaction table

    One [row] per line of [nft_transactions.csv], with the five columns the
    script reads.  Accounts and tokens are strings; [iterrows] hands the price
    of a row over as a Python float, that is a binary64 number.
    [pandas.read_csv] loads an empty price cell as the float NaN and raises
    nothing. *)

Definition token := string.
Definition account := string.

Record row := Row {
  token_id : token;
  from_account : account;
  to_account : account;
  price : float;
  tx_timestamp : string
}.

(** ** [networkx.DiGraph]

    The graph is its successor dictionary [_adj]: node ↦ (neighbour ↦ edge
    attributes).  A [DiGraph] holds at most one edge per ordered pair. *)

Record edge_attr := EdgeAttr { attr_timestamp : string; attr_price : float }.

Definition DiGraph := list (account * list (account * edge_attr)).

Definition add_node (n : account) (G : DiGraph) : DiGraph :=
  if od_mem n G then G else G ++ [(n, [])].

(** [G.add_edge(u, v, timestamp=.., price=..)]: both end points become nodes,
    then [_adj[u][v]] is (re)bound; the keyword arguments overwrite the
    attributes of an edge that is already there. *)
Definition add_edge (u v : account) (a : edge_attr) (G : DiGraph) : DiGraph :=
  let G := add_node u G in
  let G := add_node v G in
  od_set u (od_set v a (default [] (od_get u G))) G.

Definition nodes (G : DiGraph) : list account := od_keys G.

Definition get_edge_data (G : DiGraph) (u v : account) : option edge_attr :=
  nbrs ← od_get u G; od_get v nbrs.

Definition has_edge (G : DiGraph) (u v : account) : bool :=
  bool_decide (is_Some (get_edge_data G u v)).

Definition number_of_edges (G : DiGraph) : nat :=
  sum_list ((λ kv, length kv.2) <$> G).

(** ** STEP 1: one graph per token *)

Definition build_step (graphs : list (token * DiGraph)) (r : row) : list (token * DiGraph) :=
  let graphs := if od_mem (token_id r) graphs then graphs
                else od_set (token_id r) [] graphs in
  od_update (token_id r)
    (add_edge (from_account r) (to_account r)
       (EdgeAttr (tx_timestamp r) (price r))) [] graphs.

Definition build_graphs (df : list row) : list (token * DiGraph) :=
  fold_left build_step df [].

(** ** Findings *)

Record detections := Detections {
  self_trades : list (token * account);
  zero_risk : list (token * list account);
  common_funder : list (token * account * list account);
  common_exit : list (token * account);
  repeated_scc : list (token * list account)
}.

Definition no_detections : detections := Detections [] [] [] [] [].

(** [round(val, 8) == 0] on a float.  Python rounds the exact value of the
    double to eight decimals, so the result is zero exactly when
    |val| < 5·10⁻⁹; the double written [5e-9] (0x1.5798ee2308c3ap-28) lies just
    above 5·10⁻⁹ and no double lies between the two.  NaN and the infinities
    round to themselves, and the comparison is false on them. *)
Definition round8_is_zero (val : float) : bool :=
  (abs val <? 0x1.5798ee2308c3ap-28)%float.

(** Rows of the token with the sender or the receiver in the component:
    [df[(df.token_id == token_id) & (df.from_account.isin(scc) | df.to_account.isin(scc))]] *)
Definition total_gains (df : list row) (tok : token) (scc : gset account) : list row :=
  filter (λ r, token_id r = tok ∧ (from_account r ∈ scc ∨ to_account r ∈ scc)) df.

(** [balances = defaultdict(float)] and its update loop *)
Definition balances_step (b : list (account * float)) (r : row) : list (account * float) :=
  let b := od_update (from_account r) (λ x, x - price r)%float 0%float b in
  od_update (to_account r) (λ x, x + price r)%float 0%float b.

Definition balances (rows : list row) : list (account * float) :=
  fold_left balances_step rows [].

Definition nonzero_accounts (b : list (account * float)) : list account :=
  (filter (λ kv, round8_is_zero kv.2 = false) b).*1.

(** [funder_counts = defaultdict(set)] *)
Definition funder_step (fc : list (account * gset account)) (r : row) :=
  od_update (from_account r) (λ s, s ∪ {[ to_account r ]}) ∅ fc.

Definition funder_counts (rows : list row) : list (account * gset account) :=
  fold_left funder_step rows [].

(** [receivers = defaultdict(int)] *)
Definition receivers_step (rc : list (account * Z)) (r : row) :=
  od_update (to_account r) (λ n, n + 1)%Z 0%Z rc.

Definition receivers (rows : list row) : list (account * Z) :=
  fold_left receivers_step rows [].

(** [sorted(items, key=lambda x: x[1], reverse=True)]: a stable sort, so items
    with equal counts stay in dictionary order. *)
Fixpoint insert_desc (x : account * Z) (l : list (account * Z)) : list (account * Z) :=
  match l with
  | [] => [x]
  | y :: l' => if (y.2 <? x.2)%Z then x :: l else y :: insert_desc x l'
  end.

Definition sorted_desc (l : list (account * Z)) : list (account * Z) :=
  fold_left (λ acc x, insert_desc x acc) l [].

(** ** STEP 2: the rules, per token and component

    Two things are chosen by the run time and are parameters here:
    - [set_order s], the order in which Python iterates the set [s]
      ([list(scc)], [list(targets)]); for sets of strings it follows the
      string hashes, which are salted per process;
    - [strongly_connected_components G], networkx's enumeration of the
      components of [G], each a set of nodes. *)

Section rules.
Context (set_order : gset account → list account).
Context (strongly_connected_components : DiGraph → list (gset account)).

(** [G.subgraph(scc).nodes]: the view iterates the node set when it is less
    than half the graph, and the graph's nodes otherwise. *)
Definition subgraph_nodes (G : DiGraph) (scc : gset account) : list account :=
  if (2 * size scc <? length (nodes G))%nat
  then filter (λ n, n ∈ nodes G) (set_order scc)
  else filter (λ n, n ∈ scc) (nodes G).

Definition subgraph_has_edge (G : DiGraph) (scc : gset account) (u v : account) : bool :=
  bool_decide (u ∈ scc) && bool_decide (v ∈ scc) && has_edge G u v.

(** 1. Self-Trades *)
Definition self_trades_rule (tok : token) (G : DiGraph) (scc : gset account)
    : list (token * account) :=
  (λ n, (tok, n)) <$>
    filter (λ n, subgraph_has_edge G scc n n = true) (subgraph_nodes G scc).

(** 2. Zero-Risk Position *)
Definition zero_risk_rule (tok : token) (df : list row) (scc : gset account)
    : list (token * list account) :=
  if decide (length (nonzero_accounts (balances (total_gains df tok scc))) = 0)
  then [(tok, set_order scc)] else [].

(** 3. Common Funder *)
Definition common_funder_rule (tok : token) (df : list row) (scc : gset account)
    : list (token * account * list account) :=
  (λ kv, (tok, kv.1, set_order kv.2)) <$>
    filter (λ kv, (2 ≤ size (kv.2 ∩ scc))%nat) (funder_counts (total_gains df tok scc)).

(** 4. Common Exit *)
Definition common_exit_rule (tok : token) (df : list row) (scc : gset account)
    : list (token * account) :=
  match sorted_desc (receivers (total_gains df tok scc)) with
  | top :: _ => if decide (top.1 ∈ scc) then [(tok, top.1)] else []
  | [] => []
  end.

(** 5. Repeated SCC Participants: the key is [frozenset(scc)] *)
Definition repeated_scc_rule (tok : token) (scc : gset account)
    (past_sccs : gset (gset account))
    : list (token * list account) * gset (gset account) :=
  if decide (scc ∈ past_sccs) then ([(tok, set_order scc)], past_sccs)
  else ([], past_sccs ∪ {[ scc ]}).

Record state := State { found : detections; past_sccs : gset (gset account) }.

(** The body of [for scc in sccs].  The string [scc_id], built from the token
    and [hash(frozenset(scc))], is assigned there and never read. *)
Definition analyze_scc (df : list row) (tok : token) (G : DiGraph)
    (st : state) (scc : gset account) : state :=
  let d := found st in
  let '(rep, past') := repeated_scc_rule tok scc (past_sccs st) in
  State
    (Detections
       (self_trades d ++ self_trades_rule tok G scc)
       (zero_risk d ++ zero_risk_rule tok df scc)
       (common_funder d ++ common_funder_rule tok df scc)
       (common_exit d ++ common_exit_rule tok df scc)
       (repeated_scc d ++ rep))
    past'.

(** The body of [for token_id, G in graphs.items()] *)
Definition analyze_graph (df : list row) (st : state) (tG : token * DiGraph) : state :=
  fold_left (analyze_scc df tG.1 tG.2) (strongly_connected_components tG.2) st.

Definition run_state (df : list row) : state :=
  fold_left (analyze_graph df) (build_graphs df) (State no_detections ∅).

(** The whole script, up to the summary *)
Definition run (df : list row) : detections := found (run_state df).

End rules.

(** ** A reference run time

    Closed examples need one concrete choice of the two parameters.  The
    reference components are the classes of mutual reachability, listed by
    their first node in the graph's node order (networkx may list the
    components of a graph in another order; the examples below have one
    component per graph, or do not depend on it).  The reference set order is
    the order of [elements]; [reversed_order] is a second possible order. *)

Definition successors (G : DiGraph) (u : account) : list account :=
  od_keys (default [] (od_get u G)).

Definition reach_step (G : DiGraph) (s : gset account) : gset account :=
  s ∪ ⋃ ((λ u, list_to_set (successors G u)) <$> elements s).

Definition reachable (G : DiGraph) (u : account) : gset account :=
  Nat.iter (length (nodes G)) (reach_step G) {[ u ]}.

Definition component_of (G : DiGraph) (u : account) : gset account :=
  filter (λ v, u ∈ reachable G v) (reachable G u).

Definition reference_components (G : DiGraph) : list (gset account) :=
  fold_left
    (λ acc u, if decide (Exists (λ c, u ∈ c) acc) then acc
              else acc ++ [component_of G u])
    (nodes G) [].

Definition reference_order (s : gset account) : list account := elements s.

Definition reversed_order (s : gset account) : list account := reverse (elements s).

(** ** Vocabulary of the statements *)

(** The graph the builder holds for a token (empty when the token is absent). *)
Definition graph_of (graphs : list (token * DiGraph)) (tok : token) : DiGraph :=
  default [] (od_get tok graphs).

(** The attributes a row gives its edge. *)
Definition row_attr (r : row) : edge_attr := EdgeAttr (tx_timestamp r) (price r).

(** The rows of a token that go from [u] to [v], in table order. *)
Definition transfers (df : list row) (tok : token) (u v : account) : list row :=
  filter (λ r, token_id r = tok ∧ from_account r = u ∧ to_account r = v) df.

(** The ordered (sender, receiver) pairs that occur among a token's rows. *)
Definition traded_pairs (df : list row) (tok : token) : gset (account * account) :=
  list_to_set ((λ r, (from_account r, to_account r)) <$> filter (λ r, token_id r = tok) df).

(** The interpreter may iterate a set in any order, but it yields every
    member once. *)
Definition set_order_ok (set_order : gset account → list account) : Prop :=
  ∀ s, set_order s ≡ₚ elements s.

(** The net balance of an account over some rows, accumulated in table
    order from [0.0]: the price of a row is subtracted when the account is
    its sender and added when the account is its receiver. *)
Definition net_balance (rows : list row) (acc : account) : float :=
  fold_left
    (λ b r,
       let b := if decide (from_account r = acc) then (b - price r)%float else b in
       if decide (to_account r = acc) then (b + price r)%float else b)
    rows 0%float.

(** The distinct receivers a sender has among some rows. *)
Definition targets_of (rows : list row) (funder : account) : gset account :=
  list_to_set (to_account <$> filter (λ r, from_account r = funder) rows).

(** The (token, graph, component) triples in the order the two nested loops
    of STEP 2 visit them. *)
Definition component_visits
    (strongly_connected_components : DiGraph → list (gset account))
    (df : list row) : list (token * DiGraph * gset account) :=
  build_graphs df ≫= λ tG, (λ scc, (tG.1, tG.2, scc)) <$> strongly_connected_components tG.2.

(** Two findings that name the same token (and funder) and the same accounts,
    the accounts possibly listed in a different order. *)
Definition same_cluster_finding (x y : token * list account) : Prop :=
  x.1 = y.1 ∧ x.2 ≡ₚ y.2.

Definition same_funder_finding (x y : token * account * list account) : Prop :=
  x.1 = y.1 ∧ x.2 ≡ₚ y.2.

(** One iteration of the inner loop of STEP 2, on a visited triple. *)
Definition visit_step (set_order : gset account → list account)
    (df : list row) (st : state)
    (v : token * DiGraph * gset account) : state :=
  analyze_scc set_order df v.1.1 v.1.2 st v.2.

(** What rule 5 appends while the loop runs over [vs], starting with the set
    [seen] of recorded keys. *)
Fixpoint repeats (set_order : gset account → list account)
    (seen : gset (gset account))
    (vs : list (token * DiGraph * gset account)) : list (token * list account) :=
  match vs with
  | [] => []
  | v :: vs' =>
      (if decide (v.2 ∈ seen) then [(v.1.1, set_order v.2)] else [])
        ++ repeats set_order (seen ∪ {[ v.2 ]}) vs'
  end.

(** A row touches a component of a token's graph: it is a row of that token
    and its sender or its receiver is a member of the component; the other
    end may be any account, inside the component or not. *)
Definition touches (tok : token) (scc : gset account) (r : row) : Prop :=
  token_id r = tok ∧ (from_account r ∈ scc ∨ to_account r ∈ scc).

#[global] Instance touches_dec tok scc r : Decision (touches tok scc r) :=
  ltac:(unfold touches; apply _).

(** The account is the sender or the receiver of a row of the table that
    touches the component. *)
Definition party (df : list row) (tok : token) (scc : gset account)
    (acc : account) : Prop :=
  ∃ r, r ∈ df ∧ touches tok scc r ∧ (from_account r = acc ∨ to_account r = acc).

(** The net balance of an account over the rows of the table that touch the
    component, accumulated in table order from [0.0]: the price of a touching
    row is subtracted when the account is its sender and added when the
    account is its receiver; every other row leaves the balance as it is. *)
Definition touching_balance (df : list row) (tok : token) (scc : gset account)
    (acc : account) : float :=
  fold_left
    (λ b r,
       if decide (touches tok scc r) then
         let b := if decide (from_account r = acc) then (b - price r)%float else b in
         if decide (to_account r = acc) then (b + price r)%float else b
       else b)
    df 0%float.

(** The distinct receivers of the touching rows that an account sends. *)
Definition touching_receivers (df : list row) (tok : token) (scc : gset account)
    (f : account) : gset account :=
  list_to_set (to_account <$> filter (λ r, touches tok scc r ∧ from_account r = f) df).

(** A row that moves a finite amount from an account to itself. *)
Definition self_transfer_of (a : account) (r : row) : Prop :=
  from_account r = a ∧ to_account r = a ∧ is_finite (price r) = true.

(** ** Example tables *)

Definition df_parallel : list row :=
  [Row "T1" "A" "B" 10 "2021-01-01"; Row "T1" "A" "B" 20 "2021-01-02"].

Definition df_T1 : list row :=
  [Row "T1" "A" "B" 10 "2021-01-01"; Row "T1" "B" "A" 10 "2021-01-02"].

Definition graph_T1 : DiGraph :=
  [("A", [("B", EdgeAttr "2021-01-01" 10)]); ("B", [("A", EdgeAttr "2021-01-02" 10)])].

Definition df_two_tokens : list row :=
  [Row "T1" "A" "B" 10 "2021-01-01"; Row "T1" "B" "A" 10 "2021-01-02";
   Row "T2" "A" "B" 3 "2021-02-01"; Row "T2" "B" "A" 3 "2021-02-02"].

Definition df_missing_price : list row := [Row "T1" "A" "A" nan "2021-01-01"].

Definition df_T1_bumped : list row :=
  [Row "T1" "A" "B" 10 "2021-01-01";
   Row "T1" "B" "A" 10.000000000931322574615478515625 "2021-01-02"].

(** * Properties *)

(** ** The model at work *)

(** Rounding: 2⁻²⁸ (about 3.7·10⁻⁹) rounds to zero at eight decimals, 2⁻²⁷
    (about 7.5·10⁻⁹) does not, and neither do NaN and the infinities. *)
Example round8_is_zero_examples :
  round8_is_zero 0 = true ∧ round8_is_zero (-0) = true
  ∧ round8_is_zero 0x1p-28 = true ∧ round8_is_zero (-0x1p-28) = true
  ∧ round8_is_zero 0x1p-27 = false ∧ round8_is_zero 1 = false
  ∧ round8_is_zero nan = false ∧ round8_is_zero infinity = false.
Proof. vm_compute. done. Qed.

(** The threshold of [round8_is_zero] is m·2⁻⁸⁰ and its predecessor is
    (m-1)·2⁻⁸⁰, with (m-1)·2⁻⁸⁰ < 5·10⁻⁹ < m·2⁻⁸⁰: a double is below 5·10⁻⁹
    exactly when it is below the threshold. *)
Example round8_threshold_brackets_5e_9 :
  ∃ m : positive,
    Prim2SF 0x1.5798ee2308c3ap-28 = S754_finite false m (-80)
    ∧ Prim2SF (next_down 0x1.5798ee2308c3ap-28) = S754_finite false (m - 1) (-80)
    ∧ ((Z.pos m - 1) * 10 ^ 9 < 5 * 2 ^ 80 < Z.pos m * 10 ^ 9)%Z.
Proof. exists 6044629098073146%positive. vm_compute. done. Qed.

(** The stable descending sort keeps tied receivers in dictionary order. *)
Example sorted_desc_is_stable :
  sorted_desc [("B", 1%Z); ("A", 1%Z); ("C", 2%Z); ("D", 1%Z)]
  = [("C", 2%Z); ("B", 1%Z); ("A", 1%Z); ("D", 1%Z)].
Proof. reflexivity. Qed.

(** Token "T3": F funds X and Y, which trade in a cycle.  The components are
    {F} and {X, Y}, and F is reported as the common funder of {X, Y}. *)
Example scenario_T3 :
  let df := [Row "T3" "F" "X" 4 "d1"; Row "T3" "F" "Y" 4 "d2";
             Row "T3" "X" "Y" 1 "d3"; Row "T3" "Y" "X" 1 "d4"] in
  reference_components (graph_of (build_graphs df) "T3") = [{[ "F" ]}; {[ "X"; "Y" ]}]
  ∧ common_funder (run reference_order reference_components df)
    = [("T3", "F", reference_order {[ "X"; "Y" ]})]
  ∧ zero_risk (run reference_order reference_components df) = []
  ∧ self_trades (run reference_order reference_components df) = [].
Proof. vm_compute. done. Qed.

(** Token "T2": the single transfer A→A is one Self-Trade finding. *)
Example scenario_T2 :
  self_trades (run reference_order reference_components [Row "T2" "A" "A" 5 "d1"])
  = [("T2", "A")].
Proof. vm_compute. reflexivity. Qed.


(** ** Dictionary facts *)

Section ordered_dict_facts.
Context {K V : Type} `{EqDecision K}.
Implicit Types (k : K) (v : V) (d : list (K * V)).

Lemma od_get_set_eq k v d : od_get k (od_set k v d) = Some v.
Proof.
  induction d as [|[k' v'] d IH]; simpl.
  - by rewrite decide_True.
  - destruct (decide (k = k')) as [->|Hne]; simpl.
    + by rewrite decide_True.
    + by rewrite decide_False.
Qed.

Lemma od_get_set_ne k k' v d : k ≠ k' → od_get k' (od_set k v d) = od_get k' d.
Proof.
  intros Hne. induction d as [|[k1 v1] d IH]; simpl.
  - rewrite decide_False; [done | congruence].
  - destruct (decide (k = k1)) as [->|Hk]; simpl.
    + rewrite !decide_False; [done | congruence | congruence].
    + destruct (decide (k' = k1)); [done | apply IH].
Qed.

Lemma od_get_set k k' v d :
  od_get k' (od_set k v d) = if decide (k = k') then Some v else od_get k' d.
Proof.
  destruct (decide (k = k')) as [->|Hne];
    [apply od_get_set_eq | by apply od_get_set_ne].
Qed.

Lemma od_get_None k d : od_get k d = None ↔ k ∉ od_keys d.
Proof.
  unfold od_keys. induction d as [|[k' v'] d IH]; csimpl.
  - split; [intros _; apply not_elem_of_nil | done].
  - rewrite not_elem_of_cons. destruct (decide (k = k')) as [->|Hne].
    + split; [done | intros [? _]; done].
    + rewrite IH. tauto.
Qed.

Lemma od_get_Some_elem k v d : od_get k d = Some v → (k, v) ∈ d.
Proof.
  induction d as [|[k' v'] d IH]; simpl; [done|].
  destruct (decide (k = k')) as [->|Hne].
  - intros [= ->]. apply list_elem_of_here.
  - intros H. apply list_elem_of_further, IH, H.
Qed.

Lemma od_elem_get k v d : NoDup (od_keys d) → (k, v) ∈ d → od_get k d = Some v.
Proof.
  unfold od_keys. induction d as [|[k' v'] d IH]; csimpl.
  - intros _ H. by apply elem_of_nil in H.
  - intros [Hnotin Hnd]%NoDup_cons [Heq|Hin]%elem_of_cons.
    + injection Heq as -> ->. by rewrite decide_True.
    + destruct (decide (k = k')) as [->|Hne]; [|by apply IH].
      exfalso. apply Hnotin. apply list_elem_of_fmap. by exists (k', v).
Qed.

Lemma od_keys_set k v d :
  od_keys (od_set k v d) = if od_mem k d then od_keys d else od_keys d ++ [k].
Proof.
  unfold od_mem, od_keys. induction d as [|[k' v'] d IH]; csimpl; [done|].
  destruct (decide (k = k')) as [->|Hne]; csimpl.
  - done.
  - rewrite IH. by destruct (bool_decide (is_Some (od_get k d))).
Qed.

Lemma od_mem_keys k d : od_mem k d = true ↔ k ∈ od_keys d.
Proof.
  unfold od_mem. rewrite bool_decide_eq_true.
  destruct (od_get k d) as [v|] eqn:E.
  - split; [intros _ | by eexists].
    apply od_get_Some_elem in E. unfold od_keys.
    apply list_elem_of_fmap. by exists (k, v).
  - split; [intros [? [=]] | intros Hin]. by apply od_get_None in E.
Qed.

Lemma od_keys_set_NoDup k v d : NoDup (od_keys d) → NoDup (od_keys (od_set k v d)).
Proof.
  intros Hnd. rewrite od_keys_set. destruct (od_mem k d) eqn:E; [done|].
  apply NoDup_app. split_and!; [done | | apply NoDup_singleton].
  intros x Hx ->%list_elem_of_singleton.
  apply od_mem_keys in Hx. congruence.
Qed.

End ordered_dict_facts.

(** ** Graph facts *)

Section graph_facts.
Implicit Types (G : DiGraph) (u v n : account) (a : edge_attr).

Lemma od_get_snoc {K V} `{EqDecision K} (k k' : K) (v : V) (d : list (K * V)) :
  od_get k (d ++ [(k', v)]) =
  match od_get k d with
  | Some x => Some x
  | None => if decide (k = k') then Some v else None
  end.
Proof.
  induction d as [|[k1 v1] d IH]; simpl; [done|].
  destruct (decide (k = k1)); [done | apply IH].
Qed.

Lemma od_mem_false {K V} `{EqDecision K} (k : K) (d : list (K * V)) :
  od_mem k d = false ↔ od_get k d = None.
Proof.
  unfold od_mem. rewrite bool_decide_eq_false.
  destruct (od_get k d); split; try done.
  intros []. by eexists.
Qed.

Lemma od_mem_true {K V} `{EqDecision K} (k : K) (d : list (K * V)) :
  od_mem k d = true ↔ is_Some (od_get k d).
Proof. unfold od_mem. apply bool_decide_eq_true. Qed.

Lemma get_edge_data_nbrs G u v :
  od_get v (default [] (od_get u G)) = get_edge_data G u v.
Proof. unfold get_edge_data. by destruct (od_get u G). Qed.

Lemma od_get_add_node n G u :
  default [] (od_get u (add_node n G)) = default [] (od_get u G).
Proof.
  unfold add_node. destruct (od_mem n G) eqn:E; [done|].
  apply od_mem_false in E. rewrite od_get_snoc.
  destruct (od_get u G) eqn:E'; [done|]. by destruct (decide (u = n)).
Qed.

Lemma get_edge_data_add_node n G u v :
  get_edge_data (add_node n G) u v = get_edge_data G u v.
Proof. by rewrite <- !get_edge_data_nbrs, od_get_add_node. Qed.

Lemma get_edge_data_add_edge u0 v0 a G u v :
  get_edge_data (add_edge u0 v0 a G) u v =
  if decide (u = u0 ∧ v = v0) then Some a else get_edge_data G u v.
Proof.
  unfold add_edge.
  rewrite <- (get_edge_data_add_node u0 G u v).
  rewrite <- (get_edge_data_add_node v0 (add_node u0 G) u v).
  generalize (add_node v0 (add_node u0 G)). intros G'.
  unfold get_edge_data at 1. rewrite od_get_set.
  destruct (decide (u0 = u)) as [<-|Hu]; simpl.
  - rewrite od_get_set, get_edge_data_nbrs.
    destruct (decide (v0 = v)) as [<-|Hv].
    + rewrite decide_True; done.
    + rewrite decide_False; [done | intros [_ ?]; done].
  - rewrite decide_False; [done | intros [? _]; done].
Qed.

Lemma graph_of_build_step gs r tok :
  graph_of (build_step gs r) tok =
  if decide (tok = token_id r)
  then add_edge (from_account r) (to_account r) (row_attr r) (graph_of gs tok)
  else graph_of gs tok.
Proof.
  unfold build_step, graph_of, od_update, row_attr.
  set (t := token_id r).
  assert (Hpre : ∀ k, default [] (od_get k (if od_mem t gs then gs else od_set t [] gs))
                      = default [] (od_get k gs)).
  { intros k. destruct (od_mem t gs) eqn:E; [done|].
    apply od_mem_false in E. rewrite od_get_set.
    destruct (decide (t = k)) as [<-|]; [by rewrite E | done]. }
  rewrite od_get_set. destruct (decide (t = tok)) as [<-|Hne].
  - rewrite decide_True by done. simpl. by rewrite Hpre.
  - rewrite decide_False by done. apply Hpre.
Qed.

Lemma build_graphs_snoc df r : build_graphs (df ++ [r]) = build_step (build_graphs df) r.
Proof. unfold build_graphs. by rewrite fold_left_app. Qed.

Lemma get_edge_data_build_graphs df tok u v :
  get_edge_data (graph_of (build_graphs df) tok) u v
  = row_attr <$> last (transfers df tok u v).
Proof.
  induction df as [|r df IH] using rev_ind; [done|].
  rewrite build_graphs_snoc, graph_of_build_step. unfold transfers in *.
  rewrite filter_app.
  destruct (decide (tok = token_id r)) as [->|Ht].
  - rewrite get_edge_data_add_edge.
    destruct (decide (u = from_account r ∧ v = to_account r)) as [[-> ->]|Hn].
    + rewrite filter_cons_True by done. rewrite filter_nil.
      by rewrite last_snoc.
    + rewrite filter_cons_False; [| intros (_ & <- & <-); by apply Hn].
      rewrite filter_nil, app_nil_r. apply IH.
  - rewrite filter_cons_False; [| intros (<- & _); by apply Ht].
    rewrite filter_nil, app_nil_r. apply IH.
Qed.

Lemma has_edge_build_graphs df tok u v :
  has_edge (graph_of (build_graphs df) tok) u v = true ↔ (u, v) ∈ traded_pairs df tok.
Proof.
  unfold has_edge, traded_pairs. rewrite bool_decide_eq_true.
  rewrite get_edge_data_build_graphs, fmap_is_Some.
  rewrite elem_of_list_to_set, list_elem_of_fmap.
  split.
  - intros [r Hr]. apply last_Some in Hr as [l' Hl'].
    assert (Hin : r ∈ transfers df tok u v).
    { rewrite Hl'. apply elem_of_app. right. apply list_elem_of_here. }
    apply list_elem_of_filter in Hin as [(? & ? & ?) Hin].
    exists r. split; [congruence|]. by apply list_elem_of_filter.
  - intros (r & [= -> ->] & [Ht Hin]%list_elem_of_filter).
    destruct (last (transfers df tok (from_account r) (to_account r))) eqn:E;
      [by eexists|].
    apply last_None in E.
    assert (Hin' : r ∈ transfers df tok (from_account r) (to_account r))
      by by apply list_elem_of_filter.
    rewrite E in Hin'. by apply elem_of_nil in Hin'.
Qed.

Lemma number_of_edges_app G G' :
  number_of_edges (G ++ G') = number_of_edges G + number_of_edges G'.
Proof.
  unfold number_of_edges. induction G as [|[k x] G IH]; csimpl; [done|].
  rewrite IH. lia.
Qed.

Lemma number_of_edges_od_set u (nb : list (account * edge_attr)) G :
  number_of_edges (od_set u nb G) + length (default [] (od_get u G))
  = number_of_edges G + length nb.
Proof.
  unfold number_of_edges. induction G as [|[k x] G IH]; csimpl; [lia|].
  destruct (decide (u = k)) as [->|Hne]; csimpl; lia.
Qed.

Lemma length_od_set {K V} `{EqDecision K} (k : K) (v : V) (d : list (K * V)) :
  length (od_set k v d) = if od_mem k d then length d else S (length d).
Proof.
  unfold od_mem. induction d as [|[k' v'] d IH]; simpl; [done|].
  destruct (decide (k = k')); simpl; [done|].
  rewrite IH. by destruct (bool_decide _).
Qed.

Lemma number_of_edges_add_node n G : number_of_edges (add_node n G) = number_of_edges G.
Proof.
  unfold add_node. destruct (od_mem n G); [done|].
  rewrite number_of_edges_app. unfold number_of_edges at 2. simpl. lia.
Qed.

Lemma number_of_edges_add_edge u v a G :
  number_of_edges (add_edge u v a G) =
  if has_edge G u v then number_of_edges G else S (number_of_edges G).
Proof.
  unfold has_edge. rewrite <- get_edge_data_nbrs.
  rewrite <- (number_of_edges_add_node u G).
  rewrite <- (number_of_edges_add_node v (add_node u G)).
  rewrite <- (od_get_add_node u G u).
  rewrite <- (od_get_add_node v (add_node u G) u).
  unfold add_edge. generalize (add_node v (add_node u G)). intros G'.
  pose proof (number_of_edges_od_set u (od_set v a (default [] (od_get u G'))) G') as Hn.
  rewrite length_od_set in Hn. unfold od_mem in Hn.
  destruct (bool_decide _); lia.
Qed.

Lemma traded_pairs_snoc df r tok :
  traded_pairs (df ++ [r]) tok =
  if decide (tok = token_id r)
  then traded_pairs df tok ∪ {[ (from_account r, to_account r) ]}
  else traded_pairs df tok.
Proof.
  unfold traded_pairs. rewrite filter_app.
  destruct (decide (tok = token_id r)) as [->|Hne].
  - rewrite filter_cons_True by done. rewrite filter_nil, fmap_app.
    rewrite list_to_set_app_L. simpl. by rewrite union_empty_r_L.
  - rewrite filter_cons_False by done. by rewrite filter_nil, app_nil_r.
Qed.

Lemma number_of_edges_build_graphs df tok :
  number_of_edges (graph_of (build_graphs df) tok) = size (traded_pairs df tok).
Proof.
  induction df as [|r df IH] using rev_ind; [done|].
  rewrite traded_pairs_snoc, build_graphs_snoc, graph_of_build_step.
  destruct (decide (tok = token_id r)) as [->|Hne]; [|done].
  rewrite number_of_edges_add_edge, IH.
  destruct (has_edge _ _ _) eqn:E.
  - apply has_edge_build_graphs in E.
    rewrite (union_comm_L (traded_pairs df (token_id r))).
    by rewrite (subseteq_union_1_L {[ _ ]} (traded_pairs df (token_id r)))
      by (by apply singleton_subseteq_l).
  - rewrite size_union, size_singleton; [lia|].
    intros p Hp ->%elem_of_singleton.
    apply has_edge_build_graphs in Hp. congruence.
Qed.

Lemma nodes_add_node_NoDup n G : NoDup (nodes G) → NoDup (nodes (add_node n G)).
Proof.
  unfold add_node, nodes. intros Hnd. destruct (od_mem n G) eqn:E; [done|].
  unfold od_keys. rewrite fmap_app. apply NoDup_app. split_and!; [done | | apply NoDup_singleton].
  intros x Hx ->%list_elem_of_singleton.
  apply od_mem_keys in Hx. simpl in Hx. congruence.
Qed.

Lemma nodes_add_edge_NoDup u v a G : NoDup (nodes G) → NoDup (nodes (add_edge u v a G)).
Proof.
  intros Hnd. unfold add_edge, nodes.
  by apply od_keys_set_NoDup, nodes_add_node_NoDup, nodes_add_node_NoDup.
Qed.

Lemma nodes_build_graphs_NoDup df tok : NoDup (nodes (graph_of (build_graphs df) tok)).
Proof.
  induction df as [|r df IH] using rev_ind; [apply NoDup_nil_2|].
  rewrite build_graphs_snoc, graph_of_build_step.
  destruct (decide (tok = token_id r)); [by apply nodes_add_edge_NoDup | done].
Qed.

Lemma has_edge_node G u v : has_edge G u v = true → u ∈ nodes G.
Proof.
  unfold has_edge, get_edge_data, nodes. rewrite bool_decide_eq_true.
  destruct (od_get u G) eqn:E; simpl; [intros _ | by intros [? ?]].
  apply od_mem_keys, od_mem_true. by eexists.
Qed.

Lemma od_get_build_step gs r tok :
  od_get tok (build_step gs r) =
  if decide (tok = token_id r)
  then Some (add_edge (from_account r) (to_account r) (row_attr r)
               (graph_of gs tok))
  else od_get tok gs.
Proof.
  unfold build_step, graph_of, od_update, row_attr.
  set (t := token_id r).
  assert (Hpre : ∀ k, k ≠ t →
            od_get k (if od_mem t gs then gs else od_set t [] gs) = od_get k gs).
  { intros k Hk. destruct (od_mem t gs); [done|]. by rewrite od_get_set_ne. }
  assert (Hdef : default [] (od_get t (if od_mem t gs then gs else od_set t [] gs))
                 = default [] (od_get t gs)).
  { destruct (od_mem t gs) eqn:E; [done|].
    apply od_mem_false in E. by rewrite od_get_set_eq, E. }
  rewrite od_get_set. destruct (decide (t = tok)) as [<-|Hne].
  - rewrite decide_True by done. do 2 f_equal. exact Hdef.
  - rewrite decide_False by done. by apply Hpre.
Qed.

Lemma od_get_build_graphs df r :
  r ∈ df →
  od_get (token_id r) (build_graphs df)
  = Some (graph_of (build_graphs df) (token_id r)).
Proof.
  induction df as [|r' df IH] using rev_ind; [by intros ?%elem_of_nil|].
  intros Hin. unfold graph_of at 1.
  rewrite build_graphs_snoc, od_get_build_step.
  destruct (decide (token_id r = token_id r')) as [Heq|Hne]; [done|].
  apply elem_of_app in Hin as [Hin|Hin%list_elem_of_singleton]; [|by subst].
  rewrite (IH Hin). done.
Qed.

Lemma has_edge_of_row df r :
  r ∈ df →
  has_edge (graph_of (build_graphs df) (token_id r)) (from_account r) (to_account r)
  = true.
Proof.
  intros Hin. apply has_edge_build_graphs. unfold traded_pairs.
  apply elem_of_list_to_set, list_elem_of_fmap. exists r. split; [done|].
  by apply list_elem_of_filter.
Qed.

End graph_facts.

(** ** STEP 1 (claim C1) *)

(** C1, as stated, fails: two transfers "A"→"B" of token "T1" leave a single
    edge "A"→"B" in the token's graph (it carries the second transfer's
    timestamp and price), so the edges are fewer than the transactions. *)
Lemma C1_parallel_transfers_share_one_edge :
  build_graphs df_parallel
    = [("T1", [("A", [("B", EdgeAttr "2021-01-02" 20)]); ("B", [])])]
  ∧ number_of_edges (graph_of (build_graphs df_parallel) "T1") = 1
  ∧ length df_parallel = 2.
Proof. vm_compute. done. Qed.

(** C1, amended: every transaction of the table has its edge
    sender→receiver in the graph of its token; in that graph there is an edge
    u→v exactly when the table has a transfer of the token from u to v, the
    edge carries the timestamp and price of the last such transfer in table
    order, and the graph has one edge per distinct ordered (sender, receiver)
    pair. *)
Theorem C1_one_edge_per_ordered_pair (df : list row) (tok : token) (u v : account) :
  (∀ r, r ∈ df →
     has_edge (graph_of (build_graphs df) (token_id r)) (from_account r) (to_account r)
     = true)
  ∧ get_edge_data (graph_of (build_graphs df) tok) u v
    = row_attr <$> last (transfers df tok u v)
  ∧ number_of_edges (graph_of (build_graphs df) tok) = size (traded_pairs df tok).
Proof.
  split_and!.
  - apply has_edge_of_row.
  - apply get_edge_data_build_graphs.
  - apply number_of_edges_build_graphs.
Qed.

(** ** Rule 1, Self-Trades (claim C9) *)

Section self_trades_facts.
Context (set_order : gset account → list account).
Context (Hso : set_order_ok set_order).

Lemma elem_of_set_order s n : n ∈ set_order s ↔ n ∈ s.
Proof. by rewrite (Hso s), elem_of_elements. Qed.

Lemma NoDup_set_order s : NoDup (set_order s).
Proof. rewrite (Hso s). apply NoDup_elements. Qed.

Lemma elem_of_subgraph_nodes G scc n :
  n ∈ subgraph_nodes set_order G scc ↔ n ∈ scc ∧ n ∈ nodes G.
Proof.
  unfold subgraph_nodes. destruct (_ <? _)%nat.
  - rewrite list_elem_of_filter, elem_of_set_order. tauto.
  - rewrite list_elem_of_filter. tauto.
Qed.

Lemma NoDup_subgraph_nodes G scc :
  NoDup (nodes G) → NoDup (subgraph_nodes set_order G scc).
Proof.
  intros Hnd. unfold subgraph_nodes. destruct (_ <? _)%nat.
  - apply NoDup_filter, NoDup_set_order.
  - by apply NoDup_filter.
Qed.

Lemma length_filter_eq_NoDup {A} `{EqDecision A} (x : A) (l : list A) :
  NoDup l → length (filter (λ y, y = x) l) = if bool_decide (x ∈ l) then 1 else 0.
Proof.
  induction 1 as [|y l Hy Hnd IH]; [done|].
  destruct (decide (y = x)) as [->|Hne].
  - rewrite filter_cons_True by done. simpl. rewrite IH.
    rewrite bool_decide_eq_false_2 by done.
    rewrite bool_decide_eq_true_2; [done | apply list_elem_of_here].
  - rewrite filter_cons_False by done. rewrite IH.
    rewrite (bool_decide_ext (x ∈ y :: l) (x ∈ l)); [done|].
    rewrite elem_of_cons. split; [intros [?|?]; [congruence | done] | auto].
Qed.

Lemma elem_of_self_trades_rule tok G scc t n :
  (t, n) ∈ self_trades_rule set_order tok G scc
  ↔ t = tok ∧ n ∈ scc ∧ has_edge G n n = true.
Proof.
  unfold self_trades_rule, subgraph_has_edge. rewrite list_elem_of_fmap. split.
  - intros (m & [= -> ->] & [Hp Hin]%list_elem_of_filter).
    apply andb_true_iff in Hp as [[Hs _]%andb_true_iff He].
    by apply bool_decide_eq_true in Hs.
  - intros (-> & Hs & He). exists n. split; [done|].
    apply list_elem_of_filter. split.
    + rewrite He, andb_true_r, andb_diag. by apply bool_decide_eq_true.
    + apply elem_of_subgraph_nodes. split; [done|]. by eapply has_edge_node.
Qed.

Lemma NoDup_self_trades_rule tok G scc :
  NoDup (nodes G) → NoDup (self_trades_rule set_order tok G scc).
Proof.
  intros Hnd. unfold self_trades_rule.
  apply NoDup_fmap_2; [by intros ?? [=] |].
  by apply NoDup_filter, NoDup_subgraph_nodes.
Qed.

End self_trades_facts.

(** C9: within one component of a token's graph, a node with a self-edge
    n→n yields exactly one Self-Trade finding (token, n) and a node without
    one yields none; the edge n→n is there as soon as the table has one or
    more self-transfers of n, whatever their number. *)
Theorem C9_one_self_trade_per_node
    (set_order : gset account → list account) (df : list row)
    (tok : token) (scc : gset account) (n : account) :
  set_order_ok set_order →
  let G := graph_of (build_graphs df) tok in
  length (filter (λ f, f = (tok, n)) (self_trades_rule set_order tok G scc))
    = (if bool_decide (n ∈ scc) && has_edge G n n then 1 else 0)
  ∧ (has_edge G n n = true ↔ transfers df tok n n ≠ []).
Proof.
  intros Hso G. split.
  - rewrite length_filter_eq_NoDup
      by apply (NoDup_self_trades_rule _ Hso), nodes_build_graphs_NoDup.
    destruct (bool_decide (n ∈ scc) && has_edge G n n) eqn:E.
    + rewrite bool_decide_eq_true_2; [done|].
      apply (elem_of_self_trades_rule _ Hso).
      by apply andb_true_iff in E as [?%bool_decide_eq_true ?].
    + rewrite bool_decide_eq_false_2; [done|].
      intros (_ & Hs & He)%(elem_of_self_trades_rule _ Hso).
      rewrite He, andb_true_r in E. by apply bool_decide_eq_false in E.
  - unfold G, has_edge. rewrite bool_decide_eq_true, get_edge_data_build_graphs.
    rewrite fmap_is_Some, <- last_None, <- not_eq_None_Some. done.
Qed.

(** C9 at work: three self-transfers of "A" in its own one-node component. *)
Lemma C9_one_self_trade_per_node_witness :
  let df := [Row "T2" "A" "A" 5 "d1"; Row "T2" "A" "A" 7 "d2"; Row "T2" "A" "A" 9 "d3"] in
  let G := graph_of (build_graphs df) "T2" in
  length (filter (λ f, f = ("T2", "A")) (self_trades_rule reference_order "T2" G {[ "A" ]}))
    = (if bool_decide ("A" ∈ ({[ "A" ]} : gset account)) && has_edge G "A" "A" then 1 else 0)
  ∧ (has_edge G "A" "A" = true ↔ transfers df "T2" "A" "A" ≠ []).
Proof.
  apply (C9_one_self_trade_per_node reference_order
           [Row "T2" "A" "A" 5 "d1"; Row "T2" "A" "A" 7 "d2"; Row "T2" "A" "A" 9 "d3"]
           "T2" {[ "A" ]} "A").
  intros s. reflexivity.
Defined.

(** ** defaultdict facts *)

Section defaultdict_facts.
Context {K V : Type} `{EqDecision K}.
Implicit Types (k : K) (v : V) (d : list (K * V)).

Lemma od_update_get k k' (f : V → V) dflt d :
  default dflt (od_get k' (od_update k f dflt d))
  = if decide (k = k') then f (default dflt (od_get k' d))
    else default dflt (od_get k' d).
Proof.
  unfold od_update. rewrite od_get_set.
  by destruct (decide (k = k')) as [->|].
Qed.

Lemma od_update_keys_NoDup k (f : V → V) dflt d :
  NoDup (od_keys d) → NoDup (od_keys (od_update k f dflt d)).
Proof. apply od_keys_set_NoDup. Qed.

End defaultdict_facts.

(** ** Rule 2, Zero-Risk Position (claims C2, C7, C10) *)

Section zero_risk_facts.

Lemma balances_snoc rows r : balances (rows ++ [r]) = balances_step (balances rows) r.
Proof. unfold balances. by rewrite fold_left_app. Qed.

Lemma net_balance_snoc rows r acc :
  net_balance (rows ++ [r]) acc =
  let b := net_balance rows acc in
  let b := if decide (from_account r = acc) then (b - price r)%float else b in
  if decide (to_account r = acc) then (b + price r)%float else b.
Proof. unfold net_balance. by rewrite fold_left_app. Qed.

(** The dictionary holds, for every account, its net balance. *)
Lemma balances_get rows acc :
  default 0%float (od_get acc (balances rows)) = net_balance rows acc.
Proof.
  induction rows as [|r rows IH] using rev_ind; [done|].
  rewrite balances_snoc, net_balance_snoc. unfold balances_step.
  rewrite !od_update_get, IH. done.
Qed.

Lemma balances_keys_NoDup rows : NoDup (od_keys (balances rows)).
Proof.
  induction rows as [|r rows IH] using rev_ind; [apply NoDup_nil_2|].
  rewrite balances_snoc. unfold balances_step.
  by do 2 apply od_update_keys_NoDup.
Qed.

Lemma nonzero_accounts_nil_iff (b : list (account * float)) :
  nonzero_accounts b = [] ↔ ∀ kv, kv ∈ b → round8_is_zero kv.2 = true.
Proof.
  unfold nonzero_accounts. split.
  - intros Hnil%fmap_nil_inv kv Hin.
    destruct (round8_is_zero kv.2) eqn:Ez; [done|].
    exfalso. eapply filter_nil_not_elem_of; [apply Hnil | apply Ez | apply Hin].
  - intros Hall. rewrite (elem_of_nil_inv (filter _ b)); [done|].
    intros kv [Hz Hin]%list_elem_of_filter. rewrite Hall in Hz; done.
Qed.

Lemma nonzero_accounts_balances rows :
  nonzero_accounts (balances rows) = []
  ↔ ∀ acc, round8_is_zero (net_balance rows acc) = true.
Proof.
  rewrite nonzero_accounts_nil_iff. split.
  - intros Hall acc. rewrite <- balances_get.
    destruct (od_get acc (balances rows)) as [v|] eqn:E; [|by vm_compute].
    apply od_get_Some_elem in E. apply (Hall _ E).
  - intros Hall [acc v] Hin. simpl.
    apply od_elem_get in Hin; [|apply balances_keys_NoDup].
    specialize (Hall acc). by rewrite <- balances_get, Hin in Hall.
Qed.

Lemma zero_risk_rule_fires set_order tok df scc :
  (∀ acc, round8_is_zero (net_balance (total_gains df tok scc) acc) = true) →
  zero_risk_rule set_order tok df scc = [(tok, set_order scc)].
Proof.
  intros Hall. apply (proj2 (nonzero_accounts_balances _)) in Hall.
  unfold zero_risk_rule. by rewrite Hall, decide_True.
Qed.

Lemma zero_risk_rule_silent set_order tok df scc acc :
  round8_is_zero (net_balance (total_gains df tok scc) acc) = false →
  zero_risk_rule set_order tok df scc = [].
Proof.
  intros Hacc. unfold zero_risk_rule. rewrite decide_False; [done|].
  intros Hnil%length_zero_iff_nil.
  rewrite (proj1 (nonzero_accounts_balances _) Hnil) in Hacc. done.
Qed.

Lemma zero_risk_rule_cases set_order tok df scc :
  let rows := total_gains df tok scc in
  (zero_risk_rule set_order tok df scc = [(tok, set_order scc)]
   ∧ ∀ acc, round8_is_zero (net_balance rows acc) = true)
  ∨ (zero_risk_rule set_order tok df scc = []
     ∧ ∃ acc, round8_is_zero (net_balance rows acc) = false).
Proof.
  intros rows.
  destruct (nonzero_accounts (balances rows)) as [|acc l] eqn:E.
  - pose proof (proj1 (nonzero_accounts_balances _) E) as Hall.
    left. split; [|done]. by apply zero_risk_rule_fires.
  - right. assert (∃ acc, round8_is_zero (net_balance rows acc) = false) as [a Ha].
    { assert (Hin : acc ∈ nonzero_accounts (balances rows))
        by (rewrite E; apply list_elem_of_here).
      unfold nonzero_accounts in Hin.
      apply list_elem_of_fmap in Hin as ([a v] & -> & [Hz Hin]%list_elem_of_filter).
      exists a. simpl in *.
      apply od_elem_get in Hin; [|apply balances_keys_NoDup].
      by rewrite <- balances_get, Hin. }
    split; [by eapply zero_risk_rule_silent | by exists a].
Qed.

End zero_risk_facts.

(** ** The rows that touch a component *)

Section touching_facts.

Lemma total_gains_app df1 df2 tok scc :
  total_gains (df1 ++ df2) tok scc = total_gains df1 tok scc ++ total_gains df2 tok scc.
Proof. apply filter_app. Qed.

Lemma total_gains_cons r df tok scc :
  total_gains (r :: df) tok scc
  = if decide (token_id r = tok ∧ (from_account r ∈ scc ∨ to_account r ∈ scc))
    then r :: total_gains df tok scc else total_gains df tok scc.
Proof. unfold total_gains. by rewrite filter_cons. Qed.

(** [total_gains] selects the rows that touch the component. *)
Lemma total_gains_touching df tok scc :
  total_gains df tok scc = filter (touches tok scc) df.
Proof. unfold total_gains. apply list_filter_iff. done. Qed.

(** The balances the rule accumulates are the balances over the touching
    rows of the table. *)
Lemma touching_balance_net df tok scc acc :
  touching_balance df tok scc acc = net_balance (total_gains df tok scc) acc.
Proof.
  unfold touching_balance, net_balance. generalize 0%float.
  induction df as [|r df IH]; intros b; [done|].
  rewrite total_gains_cons. cbn [fold_left].
  change (decide (token_id r = tok ∧ (from_account r ∈ scc ∨ to_account r ∈ scc)))
    with (decide (touches tok scc r)).
  destruct (decide (touches tok scc r)) as [Ht|Ht]; cbn [fold_left]; apply IH.
Qed.

(** An account that is party to no touching row keeps the balance [0.0]. *)
Lemma touching_balance_not_party df tok scc acc :
  ¬ party df tok scc acc → touching_balance df tok scc acc = 0%float.
Proof.
  unfold touching_balance, party. generalize 0%float.
  induction df as [|r df IH]; intros b Hnp; [done|]. simpl.
  rewrite IH.
  - destruct (decide (touches tok scc r)) as [Ht|]; [|done].
    rewrite !decide_False; [done | |]; intros Heq; apply Hnp; exists r;
      (split; [apply list_elem_of_here | by auto]).
  - intros (r' & Hin & Ht & Hacc). apply Hnp. exists r'.
    split; [by apply list_elem_of_further | done].
Qed.

Lemma party_Exists df tok scc acc :
  party df tok scc acc
  ↔ Exists (λ r, touches tok scc r ∧ (from_account r = acc ∨ to_account r = acc)) df.
Proof. unfold party. by rewrite Exists_exists. Qed.

Lemma nonzero_balance_party df tok scc acc :
  round8_is_zero (touching_balance df tok scc acc) = false → party df tok scc acc.
Proof.
  intros Hacc. apply party_Exists.
  destruct (decide (Exists (λ r, touches tok scc r
                                 ∧ (from_account r = acc ∨ to_account r = acc)) df))
    as [Hp|Hnp]; [done|].
  exfalso. rewrite touching_balance_not_party in Hacc; [by vm_compute in Hacc|].
  by rewrite party_Exists.
Qed.

Lemma touching_receivers_targets df tok scc f :
  touching_receivers df tok scc f = targets_of (total_gains df tok scc) f.
Proof.
  unfold touching_receivers, targets_of.
  rewrite total_gains_touching, list_filter_filter.
  do 2 f_equal. apply list_filter_iff. intros r. tauto.
Qed.

End touching_facts.

(** C2: on every (token, component) pair the Zero-Risk rule emits exactly one
    finding, (token, list of the component), if and only if every account
    that is the sender or the receiver of a row touching the component
    (a row of the token with its sender or its receiver in the component:
    counterparties outside the component included) has a net balance over
    those rows that rounds to 0 at eight decimals; it emits nothing if and
    only if the balance of some such account does not. *)
Theorem C2_zero_risk_iff_all_balances_round_to_zero
    (set_order : gset account → list account) (df : list row)
    (tok : token) (scc : gset account) :
  (zero_risk_rule set_order tok df scc = [(tok, set_order scc)]
   ↔ ∀ acc, party df tok scc acc →
            round8_is_zero (touching_balance df tok scc acc) = true)
  ∧ (zero_risk_rule set_order tok df scc = []
     ↔ ∃ acc, party df tok scc acc
              ∧ round8_is_zero (touching_balance df tok scc acc) = false).
Proof.
  destruct (zero_risk_rule_cases set_order tok df scc)
    as [[Hfires Hall]|[Hsilent [acc Hacc]]].
  - split; split; [| done | by rewrite Hfires |].
    + intros _ acc _. rewrite touching_balance_net. apply Hall.
    + intros (acc & _ & Hacc). rewrite touching_balance_net in Hacc.
      by rewrite Hall in Hacc.
  - rewrite <- touching_balance_net in Hacc.
    pose proof (nonzero_balance_party df tok scc acc Hacc) as Hp.
    split; split; [by rewrite Hsilent | | by exists acc | done].
    intros Hall. by rewrite (Hall acc Hp) in Hacc.
Qed.

(** ** Rule 3, Common Funder (claim C3) *)

Section common_funder_facts.

Lemma funder_counts_snoc rows r :
  funder_counts (rows ++ [r]) = funder_step (funder_counts rows) r.
Proof. unfold funder_counts. by rewrite fold_left_app. Qed.

Lemma targets_of_snoc rows r f :
  targets_of (rows ++ [r]) f =
  if decide (from_account r = f) then targets_of rows f ∪ {[ to_account r ]}
  else targets_of rows f.
Proof.
  unfold targets_of. rewrite filter_app.
  destruct (decide (from_account r = f)) as [Hf|Hf].
  - rewrite filter_cons_True by done. rewrite filter_nil, fmap_app.
    rewrite list_to_set_app_L. simpl. by rewrite union_empty_r_L.
  - rewrite filter_cons_False by done. by rewrite filter_nil, app_nil_r.
Qed.

(** The dictionary holds, for every sender, the set of its receivers. *)
Lemma funder_counts_get rows f :
  default ∅ (od_get f (funder_counts rows)) = targets_of rows f.
Proof.
  induction rows as [|r rows IH] using rev_ind; [done|].
  rewrite funder_counts_snoc, targets_of_snoc. unfold funder_step.
  by rewrite od_update_get, IH.
Qed.

Lemma funder_counts_keys_NoDup rows : NoDup (od_keys (funder_counts rows)).
Proof.
  induction rows as [|r rows IH] using rev_ind; [apply NoDup_nil_2|].
  rewrite funder_counts_snoc. by apply od_update_keys_NoDup.
Qed.

Lemma filter_funder_findings {V B} (d : list (account * V)) (f : account)
    (Q : account * V → Prop) `{∀ kv, Decision (Q kv)} (g : account * V → B)
    (key : B → account) :
  (∀ kv, key (g kv) = kv.1) →
  NoDup (od_keys d) →
  filter (λ x, key x = f) (g <$> filter Q d)
  = match od_get f d with
    | Some v => if decide (Q (f, v)) then [g (f, v)] else []
    | None => []
    end.
Proof.
  intros Hkey. unfold od_keys. induction d as [|[k v] d IH]; csimpl; [done|].
  intros [Hnotin Hnd]%NoDup_cons. destruct (decide (f = k)) as [->|Hne].
  - assert (Hrest : filter (λ x, key x = k) (g <$> filter Q d) = []).
    { rewrite IH by done.
      assert (od_get k d = None) as -> by by apply od_get_None. done. }
    destruct (decide (Q (k, v))) as [HQ|HQ].
    + rewrite (filter_cons_True Q) by done. csimpl.
      rewrite filter_cons_True by apply Hkey. by rewrite Hrest.
    + rewrite (filter_cons_False Q) by done. apply Hrest.
  - destruct (decide (Q (k, v))) as [HQ|HQ].
    + rewrite (filter_cons_True Q) by done. csimpl.
      rewrite filter_cons_False by (rewrite Hkey; simpl; congruence).
      by apply IH.
    + rewrite (filter_cons_False Q) by done. by apply IH.
Qed.

End common_funder_facts.

(** C3: on every (token, component) pair and for every account f, the
    Common-Funder findings whose funder is f are the single finding
    (token, f, list of f's receivers) when the set of f's distinct receivers,
    over the rows f sends that touch the component (rows of the token with
    their sender or their receiver in the component), meets the component in
    at least two accounts, and none otherwise (in particular none when it
    meets the component in exactly one account, and none for an account that
    sends no touching row); each qualifying funder has its own finding. *)
Theorem C3_common_funder_iff_two_receivers_in_component
    (set_order : gset account → list account) (df : list row)
    (tok : token) (scc : gset account) (f : account) :
  let targets := touching_receivers df tok scc f in
  filter (λ x, x.1.2 = f) (common_funder_rule set_order tok df scc)
  = if bool_decide (2 ≤ size (targets ∩ scc))%nat
    then [(tok, f, set_order targets)] else [].
Proof.
  intros targets. unfold targets. rewrite touching_receivers_targets.
  unfold common_funder_rule.
  rewrite (filter_funder_findings (funder_counts (total_gains df tok scc)) f
             (λ kv, (2 ≤ size (kv.2 ∩ scc))%nat)
             (λ kv, (tok, kv.1, set_order kv.2)) (λ x, x.1.2));
    [| done | apply funder_counts_keys_NoDup].
  pose proof (funder_counts_get (total_gains df tok scc) f) as Hget.
  destruct (od_get f (funder_counts (total_gains df tok scc))) as [v|];
    simpl in *; subst.
  - by destruct (decide _) as [H|H];
      [rewrite bool_decide_eq_true_2 | rewrite bool_decide_eq_false_2].
  - rewrite <- Hget. rewrite bool_decide_eq_false_2; [done|].
    rewrite intersection_empty_l_L, size_empty. lia.
Qed.

(** ** Self-transfers and the Zero-Risk rule (claim C10) *)

Section float_facts.
Open Scope float_scope.

Lemma is_finite_SF (p : float) :
  is_finite p = true →
  (∃ s, Prim2SF p = S754_zero s) ∨ (∃ s m e, Prim2SF p = S754_finite s m e).
Proof.
  unfold is_finite, is_nan, is_infinity.
  rewrite !FloatAxioms.eqb_spec, FloatAxioms.abs_spec.
  destruct (Prim2SF p) as [s|s| |s m e]; simpl; try discriminate; eauto.
  destruct s; vm_compute; discriminate.
Qed.

(** On a balance of exactly zero a transfer to oneself is exact: the price
    is subtracted, then added back. *)
Lemma self_transfer_nets_zero (p : float) : is_finite p = true → (0 - p) + p = 0.
Proof.
  intros Hf. apply Prim2SF_inj.
  rewrite FloatAxioms.add_spec, FloatAxioms.sub_spec.
  destruct (is_finite_SF p Hf) as [[s ->]|(s & m & e & ->)].
  - destruct s; reflexivity.
  - change (Prim2SF 0) with (S754_zero false).
    unfold SF64sub, SF64add. cbn [SFsub SFadd].
    rewrite Z.min_id. unfold shl_align. rewrite Z.sub_diag. cbn [fst].
    replace (cond_Zopp (negb s) (Z.pos m) + cond_Zopp s (Z.pos m))%Z with 0%Z
      by (destruct s; cbn; symmetry; apply Z.pos_sub_diag).
    reflexivity.
Qed.

Lemma not_finite_SF (p : float) :
  is_finite p = false → (∃ s, Prim2SF p = S754_infinity s) ∨ Prim2SF p = S754_nan.
Proof.
  unfold is_finite, is_nan, is_infinity.
  rewrite !FloatAxioms.eqb_spec, FloatAxioms.abs_spec.
  destruct (Prim2SF p) as [s|s| |s m e]; eauto.
  - destruct s; vm_compute; discriminate.
  - unfold SFeqb, SFcompare. simpl.
    destruct s; rewrite ?Z.compare_refl, ?Pos.compare_cont_refl, ?Pos.compare_refl;
      simpl; discriminate.
Qed.

(** With a price that is infinite or not a number the same transfer leaves
    a balance that is not a number. *)
Lemma self_transfer_not_finite (p : float) : is_finite p = false → (0 - p) + p = nan.
Proof.
  intros Hf. apply Prim2SF_inj.
  rewrite FloatAxioms.add_spec, FloatAxioms.sub_spec.
  destruct (not_finite_SF p Hf) as [[s ->]| ->].
  - by destruct s.
  - reflexivity.
Qed.

End float_facts.

Section self_transfer_facts.
Context (set_order : gset account → list account).
Context (Hso : set_order_ok set_order).

Lemma net_balance_self_transfers rows a acc :
  Forall (self_transfer_of a) rows → net_balance rows acc = 0%float.
Proof.
  unfold net_balance. induction 1 as [|r rows (Hf & Ht & Hfin) _ IH]; [done|].
  simpl. rewrite Hf, Ht. destruct (decide (a = acc)); [|apply IH].
  rewrite self_transfer_nets_zero by done. apply IH.
Qed.

Lemma set_order_singleton a : set_order {[ a ]} = [a].
Proof.
  apply Permutation_singleton_r. rewrite (Hso {[ a ]}).
  by rewrite elements_singleton.
Qed.

Lemma zero_risk_self_transfers tok df a :
  Forall (self_transfer_of a) (total_gains df tok {[ a ]}) →
  zero_risk_rule set_order tok df {[ a ]} = [(tok, [a])].
Proof.
  intros Hall. rewrite <- set_order_singleton. apply zero_risk_rule_fires.
  intros acc. by rewrite (net_balance_self_transfers _ a).
Qed.

Lemma NoDup_singleton_eq {A} (l : list A) (a : A) :
  NoDup l → (∀ x, x ∈ l ↔ x = a) → l = [a].
Proof.
  intros Hnd Hin. apply Permutation_singleton_r. apply NoDup_Permutation.
  - done.
  - apply NoDup_singleton.
  - intros x. rewrite Hin, list_elem_of_singleton. done.
Qed.

End self_transfer_facts.

(** ** Runs over a table with one token and one component *)

Section single_component.
Context (set_order : gset account → list account).
Context (strongly_connected_components : DiGraph → list (gset account)).

Lemma run_single_component df tok G scc :
  build_graphs df = [(tok, G)] →
  strongly_connected_components G = [scc] →
  run set_order strongly_connected_components df
  = Detections (self_trades_rule set_order tok G scc)
               (zero_risk_rule set_order tok df scc)
               (common_funder_rule set_order tok df scc)
               (common_exit_rule tok df scc)
               [].
Proof.
  intros HG Hscc. unfold run, run_state. rewrite HG. simpl.
  unfold analyze_graph. simpl. rewrite Hscc. simpl.
  unfold analyze_scc, repeated_scc_rule.
  rewrite decide_False by apply not_elem_of_empty. done.
Qed.

Lemma build_graphs_self_transfer tok a p ts :
  build_graphs [Row tok a a p ts] = [(tok, [(a, [(a, EdgeAttr ts p)])])].
Proof.
  unfold build_graphs, build_step, od_update, add_edge, add_node. simpl.
  change (od_mem tok []) with false. cbn.
  rewrite !decide_True by done. cbn.
  assert (od_mem a [(a, @nil (account * edge_attr))] = true) as ->
    by (apply od_mem_true; simpl; rewrite decide_True by done; by eexists).
  cbn. rewrite !decide_True by done. done.
Qed.

End single_component.

(** C10, as stated, fails on "at any price": the single transaction A→A
    at an infinite price, or at a price that is not a number (a missing
    price), yields the Self-Trade finding and no Zero-Risk finding, the
    balance (0 - p) + p being not a number. *)
Lemma C10_self_transfer_price_not_finite :
  self_trades (run reference_order reference_components
                 [Row "T2" "A" "A" infinity "d1"]) = [("T2", "A")]
  ∧ zero_risk (run reference_order reference_components
                 [Row "T2" "A" "A" infinity "d1"]) = []
  ∧ self_trades (run reference_order reference_components
                   [Row "T2" "A" "A" nan "d1"]) = [("T2", "A")]
  ∧ zero_risk (run reference_order reference_components
                 [Row "T2" "A" "A" nan "d1"]) = [].
Proof. vm_compute. done. Qed.

(** C10, amended: when the rows of the table that touch the one-account
    component {a} of a token are all transfers from a to a of finite price,
    every balance is exactly 0 and the Zero-Risk rule emits (token, [a]); in
    particular a table with the single transaction a→a yields the Self-Trade
    finding (token, a) at any price, and the Zero-Risk finding (token, [a])
    exactly when the price is finite. *)
Theorem C10_self_transfers_are_zero_risk
    (set_order : gset account → list account)
    (strongly_connected_components : DiGraph → list (gset account))
    (tok : token) (a : account) :
  set_order_ok set_order →
  (∀ df, (∀ r, r ∈ df → touches tok {[ a ]} r → self_transfer_of a r) →
         zero_risk_rule set_order tok df {[ a ]} = [(tok, [a])])
  ∧ (∀ p ts,
       strongly_connected_components [(a, [(a, EdgeAttr ts p)])] = [{[ a ]}] →
       let d := run set_order strongly_connected_components [Row tok a a p ts] in
       self_trades d = [(tok, a)]
       ∧ zero_risk d = if is_finite p then [(tok, [a])] else []).
Proof.
  intros Hso. split.
  { intros df Hall. apply (zero_risk_self_transfers _ Hso). apply Forall_forall.
    intros r [Ht Hin]%list_elem_of_filter. by apply Hall. }
  intros p ts Hscc d. unfold d.
  rewrite (run_single_component _ _ _ tok _ {[ a ]}
             (build_graphs_self_transfer tok a p ts) Hscc). simpl.
  assert (Hedge : has_edge [(a, [(a, EdgeAttr ts p)])] a a = true).
  { unfold has_edge, get_edge_data. simpl. rewrite decide_True by done. simpl.
    rewrite decide_True by done. apply bool_decide_eq_true. by eexists. }
  split.
  - apply NoDup_singleton_eq.
    + apply (NoDup_self_trades_rule _ Hso). apply NoDup_singleton.
    + intros [t n]. rewrite (elem_of_self_trades_rule _ Hso), elem_of_singleton.
      split; [by intros (-> & -> & _) | by intros [= -> ->]].
  - destruct (is_finite p) eqn:Hfin.
    + apply (zero_risk_self_transfers _ Hso). apply Forall_forall.
      intros r [_ ->%list_elem_of_singleton]%list_elem_of_filter. done.
    + apply (zero_risk_rule_silent _ _ _ _ a).
      rewrite total_gains_cons. simpl.
      rewrite decide_True by (split; [done | left; by apply elem_of_singleton]).
      unfold net_balance. simpl. rewrite !decide_True by done.
      rewrite self_transfer_not_finite by done. by vm_compute.
Qed.

(** C10 at work: two transfers "A"→"A" beside a transfer between other
    accounts, and the table with the single transaction "A"→"A" at price 5. *)
Lemma C10_self_transfers_are_zero_risk_witness :
  zero_risk_rule reference_order "T2"
      [Row "T2" "A" "A" 5 "d1"; Row "T2" "A" "A" 7.5 "d2"; Row "T2" "B" "C" 1 "d3"]
      {[ "A" ]}
    = [("T2", ["A"])]
  ∧ (let d := run reference_order reference_components [Row "T2" "A" "A" 5 "d1"] in
     self_trades d = [("T2", "A")] ∧ zero_risk d = [("T2", ["A"])]).
Proof.
  pose proof (C10_self_transfers_are_zero_risk reference_order reference_components
                "T2" "A" (λ s, reflexivity _)) as [H1 H2].
  split.
  - apply H1.
    apply (proj1 (Forall_forall
                    (λ r, touches "T2" {[ "A" ]} r → self_transfer_of "A" r) _)).
    constructor; [intros _; split_and!; reflexivity|].
    constructor; [intros _; split_and!; reflexivity|].
    constructor; [|constructor].
    intros [_ [Hm|Hm]]; apply elem_of_singleton in Hm; discriminate.
  - apply (H2 5%float "d1"). vm_compute. reflexivity.
Defined.

(** ** The scenario of token "T1" (claim C6) *)

Lemma build_graphs_T1 : build_graphs df_T1 = [("T1", graph_T1)].
Proof. vm_compute. reflexivity. Qed.

(** C6, as stated, fails: on the table A→B (10), B→A (10) of token "T1" the
    script does report a Common-Exit finding.  "B" and "A" each receive one
    transfer; the stable sort keeps "B", met first, on top, and "B" is a
    member of the component. *)
Lemma C6_common_exit_reported_on_tie :
  common_exit (run reference_order reference_components df_T1) = [("T1", "B")].
Proof. vm_compute. reflexivity. Qed.

(** C6, amended: on that table the run reports the Zero-Risk finding of the
    component {A, B}, no Self-Trade finding, and the Common-Exit finding
    ("T1", "B"); nothing else is reported. *)
Theorem C6_scenario_T1
    (set_order : gset account → list account)
    (strongly_connected_components : DiGraph → list (gset account)) :
  set_order_ok set_order →
  strongly_connected_components graph_T1 = [{[ "A"; "B" ]}] →
  run set_order strongly_connected_components df_T1
    = Detections [] [("T1", set_order {[ "A"; "B" ]})] [] [("T1", "B")] []
  ∧ set_order {[ "A"; "B" ]} ≡ₚ ["A"; "B"].
Proof.
  intros Hso Hscc. split.
  - rewrite (run_single_component _ _ _ _ _ _ build_graphs_T1 Hscc).
    vm_compute. reflexivity.
  - rewrite (Hso _). vm_compute. reflexivity.
Qed.

(** C6 at work, with the reference components and set order. *)
Lemma C6_scenario_T1_witness :
  run reference_order reference_components df_T1
    = Detections [] [("T1", reference_order {[ "A"; "B" ]})] [] [("T1", "B")] []
  ∧ reference_order {[ "A"; "B" ]} ≡ₚ ["A"; "B"].
Proof.
  apply (C6_scenario_T1 reference_order reference_components).
  - intros s. reflexivity.
  - vm_compute. reflexivity.
Defined.

(** ** The run as one loop over the visited components *)

Section run_facts.
Context (set_order : gset account → list account).
Context (strongly_connected_components : DiGraph → list (gset account)).

Lemma fold_left_fmap {A B C} (f : A → C → A) (g : B → C) (l : list B) (a : A) :
  fold_left f (g <$> l) a = fold_left (λ a x, f a (g x)) l a.
Proof. revert a. induction l as [|x l IH]; intros a; csimpl; [done | apply IH]. Qed.

Lemma fold_analyze_graph_visits df gs st :
  fold_left (analyze_graph set_order strongly_connected_components df) gs st
  = fold_left (visit_step set_order df)
      (gs ≫= λ tG, (λ scc, (tG.1, tG.2, scc)) <$> strongly_connected_components tG.2) st.
Proof.
  revert st. induction gs as [|tG gs IH]; intros st; csimpl; [done|].
  rewrite fold_left_app, fold_left_fmap, IH. done.
Qed.

Lemma run_state_visits df :
  run_state set_order strongly_connected_components df
  = fold_left (visit_step set_order df) (component_visits strongly_connected_components df)
      (State no_detections ∅).
Proof. apply fold_analyze_graph_visits. Qed.

End run_facts.

Section repeated_facts.
Context (set_order : gset account → list account).

Lemma visit_step_repeated df st v :
  repeated_scc (found (visit_step set_order df st v))
    = repeated_scc (found st)
        ++ (if decide (v.2 ∈ past_sccs st) then [(v.1.1, set_order v.2)] else [])
  ∧ past_sccs (visit_step set_order df st v) = past_sccs st ∪ {[ v.2 ]}.
Proof.
  unfold visit_step, analyze_scc, repeated_scc_rule.
  destruct (decide (v.2 ∈ past_sccs st)) as [Hin|Hin]; simpl; [|done].
  split; [done|]. symmetry. rewrite (union_comm_L _ _).
  apply subseteq_union_1_L. by apply singleton_subseteq_l.
Qed.

Lemma fold_visits_repeated df vs st :
  repeated_scc (found (fold_left (visit_step set_order df) vs st))
  = repeated_scc (found st) ++ repeats set_order (past_sccs st) vs.
Proof.
  revert st. induction vs as [|v vs IH]; intros st; simpl.
  - by rewrite app_nil_r.
  - rewrite IH. destruct (visit_step_repeated df st v) as [-> ->].
    by rewrite <- app_assoc.
Qed.

Lemma elem_of_repeats seen vs t l :
  (t, l) ∈ repeats set_order seen vs
  ↔ ∃ pre G scc post,
      vs = pre ++ (t, G, scc) :: post ∧ l = set_order scc
      ∧ (scc ∈ seen ∨ scc ∈ (λ v, v.2) <$> pre).
Proof.
  revert seen. induction vs as [|[[t' G'] c'] vs IH]; intros seen; simpl.
  - split; [by intros ?%elem_of_nil|].
    intros (pre & ? & ? & ? & Heq & _). by destruct pre.
  - rewrite elem_of_app, IH. split.
    + intros [Hhd|(pre & G & c & post & -> & -> & Hc)].
      * destruct (decide (c' ∈ seen)) as [Hin|]; [|by apply elem_of_nil in Hhd].
        apply list_elem_of_singleton in Hhd as [= -> ->].
        exists [], G', c', vs. auto.
      * exists ((t', G', c') :: pre), G, c, post. split_and!; [done..|].
        rewrite fmap_cons, elem_of_cons. simpl.
        rewrite elem_of_union, elem_of_singleton in Hc. tauto.
    + intros (pre & G & c & post & Heq & -> & Hc).
      destruct pre as [|v pre]; simplify_eq/=.
      * left. destruct Hc as [Hc|Hc]; [|by apply elem_of_nil in Hc].
        rewrite decide_True by done. apply list_elem_of_here.
      * right. exists pre, G, c, post. split_and!; [done..|].
        rewrite elem_of_cons in Hc. rewrite elem_of_union, elem_of_singleton.
        tauto.
Qed.

Lemma fold_visits_found df vs st :
  let d := found (fold_left (visit_step set_order df) vs st) in
  self_trades d
    = self_trades (found st) ++ (vs ≫= λ v, self_trades_rule set_order v.1.1 v.1.2 v.2)
  ∧ zero_risk d
    = zero_risk (found st) ++ (vs ≫= λ v, zero_risk_rule set_order v.1.1 df v.2)
  ∧ common_funder d
    = common_funder (found st) ++ (vs ≫= λ v, common_funder_rule set_order v.1.1 df v.2)
  ∧ common_exit d
    = common_exit (found st) ++ (vs ≫= λ v, common_exit_rule v.1.1 df v.2).
Proof.
  revert st. induction vs as [|v vs IH]; intros st; csimpl.
  - by rewrite !app_nil_r.
  - destruct (IH (visit_step set_order df st v)) as (-> & -> & -> & ->).
    unfold visit_step, analyze_scc. destruct (repeated_scc_rule _ _ _ _). simpl.
    by rewrite <- !app_assoc.
Qed.

End repeated_facts.

(** ** Rule 5, Repeated SCC Participants (claim C4) *)

(** C4, as stated, fails: the accounts {A, B} form a component under token
    "T1" and again under token "T2"; the only earlier occurrence is under a
    different token, and the rule fires for "T2". *)
Lemma C4_repeated_across_tokens :
  repeated_scc (run reference_order reference_components df_two_tokens)
  = [("T2", ["A"; "B"])].
Proof. vm_compute. reflexivity. Qed.

(** C4, amended: the key of rule 5 is the account set alone.  A
    Repeated-Cluster finding (token, accounts) is reported exactly when a
    component visited earlier in the run, under any token, has the same
    account set as the component being visited. *)
Theorem C4_repeated_cluster_keyed_by_account_set
    (set_order : gset account → list account)
    (strongly_connected_components : DiGraph → list (gset account))
    (df : list row) (tok : token) (l : list account) :
  (tok, l) ∈ repeated_scc (run set_order strongly_connected_components df)
  ↔ ∃ pre G scc post,
      component_visits strongly_connected_components df = pre ++ (tok, G, scc) :: post
      ∧ l = set_order scc
      ∧ scc ∈ (λ v, v.2) <$> pre.
Proof.
  unfold run. rewrite run_state_visits, fold_visits_repeated. simpl.
  rewrite elem_of_repeats. split.
  - intros (pre & G & scc & post & ? & ? & [Hin|Hin]);
      [by apply not_elem_of_empty in Hin|].
    by exists pre, G, scc, post.
  - intros (pre & G & scc & post & ? & ? & Hin).
    exists pre, G, scc, post. auto.
Qed.

(** ** Records with a missing field (claim C5) *)

(** C5, as stated, fails: a record whose price is missing is loaded with the
    price NaN; nothing rejects it, its edge is added to the graph of its
    token, and the run reports a finding that comes from it. *)
Lemma C5_missing_price_is_analysed :
  Forall (λ r, is_nan (price r) = true) df_missing_price
  ∧ build_graphs df_missing_price
    = [("T1", [("A", [("A", EdgeAttr "2021-01-01" nan)])])]
  ∧ run reference_order reference_components df_missing_price
    = Detections [("T1", "A")] [] [] [("T1", "A")] [].
Proof. split; [repeat constructor | vm_compute; done]. Qed.

(** C5, amended: the script validates nothing.  A record whose price is
    missing (NaN) is processed like any other record: it contributes its
    sender→receiver edge to the graph of its token, and when it is a
    transfer from an account to itself the run reports the Self-Trade
    finding of that account. *)
Theorem C5_missing_price_not_rejected
    (set_order : gset account → list account)
    (strongly_connected_components : DiGraph → list (gset account))
    (df : list row) (r : row) :
  set_order_ok set_order →
  r ∈ df →
  is_nan (price r) = true →
  let G := graph_of (build_graphs df) (token_id r) in
  has_edge G (from_account r) (to_account r) = true
  ∧ (from_account r = to_account r →
     Exists (λ scc, from_account r ∈ scc) (strongly_connected_components G) →
     (token_id r, from_account r)
       ∈ self_trades (run set_order strongly_connected_components df)).
Proof.
  intros Hso Hin _ G. pose proof (has_edge_of_row df r Hin) as Hedge.
  split; [done|]. intros Hself (scc & Hscc & Hmem)%Exists_exists.
  unfold run. rewrite run_state_visits.
  destruct (fold_visits_found set_order df
              (component_visits strongly_connected_components df)
              (State no_detections ∅)) as (-> & _). simpl.
  apply list_elem_of_bind. exists (token_id r, G, scc). split.
  - simpl. apply (elem_of_self_trades_rule _ Hso). split_and!; [done..|].
    fold G in Hedge. by rewrite <- Hself in Hedge.
  - unfold component_visits. apply list_elem_of_bind.
    exists (token_id r, G). split.
    + apply list_elem_of_fmap. by exists scc.
    + apply od_get_Some_elem, od_get_build_graphs, Hin.
Qed.

(** C5 at work: the self-transfer with a missing price. *)
Lemma C5_missing_price_not_rejected_witness :
  let r := Row "T1" "A" "A" nan "2021-01-01" in
  has_edge (graph_of (build_graphs [r]) "T1") "A" "A" = true
  ∧ ("T1", "A") ∈ self_trades (run reference_order reference_components [r]).
Proof.
  destruct (C5_missing_price_not_rejected reference_order reference_components
              [Row "T1" "A" "A" nan "2021-01-01"] (Row "T1" "A" "A" nan "2021-01-01"))
    as [Hedge Hfinding].
  - intros s. reflexivity.
  - apply list_elem_of_here.
  - vm_compute. reflexivity.
  - split; [exact Hedge|]. apply Hfinding; [reflexivity|].
    apply (bool_decide_unpack _). vm_compute. exact I.
Defined.

(** ** Changing one price (claim C7) *)

Section price_change_facts.

Lemma net_balance_app rows1 rows2 acc :
  net_balance (rows1 ++ rows2) acc
  = fold_left
      (λ b r,
         let b := if decide (from_account r = acc) then (b - price r)%float else b in
         if decide (to_account r = acc) then (b + price r)%float else b)
      rows2 (net_balance rows1 acc).
Proof. unfold net_balance. by rewrite fold_left_app. Qed.

(** A row does not move the balance of an account that is neither its sender
    nor its receiver. *)
Lemma net_balance_skip rows1 r rows2 acc :
  from_account r ≠ acc → to_account r ≠ acc →
  net_balance (rows1 ++ r :: rows2) acc = net_balance (rows1 ++ rows2) acc.
Proof.
  intros Hf Ht. rewrite !net_balance_app. simpl.
  by rewrite !decide_False by done.
Qed.

Lemma net_balance_price_change pre r post p' tok scc acc :
  from_account r ≠ acc → to_account r ≠ acc →
  net_balance
    (total_gains
       (pre ++ Row (token_id r) (from_account r) (to_account r) p' (tx_timestamp r) :: post)
       tok scc) acc
  = net_balance (total_gains (pre ++ r :: post) tok scc) acc.
Proof.
  intros Hf Ht. rewrite !total_gains_app, !total_gains_cons. simpl.
  destruct (decide _); [|done].
  by rewrite !net_balance_skip by done.
Qed.

End price_change_facts.

(** C7, as stated, fails.  A transfer from an account to itself does not
    move a balance that is zero when its price is finite: with "A"→"A" at 5
    or at 6 the component {A} is reported.  And a change below the rounding
    step is absorbed: with B→A raised from 10 to 10 + 2⁻³⁰ the balances ±2⁻³⁰
    still round to 0 and the component {A, B} is still reported. *)
Lemma C7_price_change_keeps_zero_risk :
  zero_risk_rule reference_order "T2" [Row "T2" "A" "A" 5 "2021-01-01"] {[ "A" ]}
    = [("T2", ["A"])]
  ∧ zero_risk_rule reference_order "T2" [Row "T2" "A" "A" 6 "2021-01-01"] {[ "A" ]}
    = [("T2", ["A"])]
  ∧ zero_risk_rule reference_order "T1" df_T1 {[ "A"; "B" ]} = [("T1", ["A"; "B"])]
  ∧ zero_risk_rule reference_order "T1" df_T1_bumped {[ "A"; "B" ]}
    = [("T1", ["A"; "B"])].
Proof. vm_compute. done. Qed.

(** A change of the price of a transfer from an account to itself can
    remove the finding all the same: in X→A 1, A→A p, A→X 1 the balance of A
    is ((1 - p) + p) - 1, which is 0 at p = 5 and -1 at p = 2⁶⁰, where 1 - p
    is rounded to -p. *)
Example self_transfer_price_can_matter :
  zero_risk_rule reference_order "T4"
      [Row "T4" "X" "A" 1 "d1"; Row "T4" "A" "A" 5 "d2"; Row "T4" "A" "X" 1 "d3"]
      {[ "A"; "X" ]}
    = [("T4", ["A"; "X"])]
  ∧ zero_risk_rule reference_order "T4"
      [Row "T4" "X" "A" 1 "d1"; Row "T4" "A" "A" 0x1p60 "d2"; Row "T4" "A" "X" 1 "d3"]
      {[ "A"; "X" ]}
    = []
  ∧ touching_balance
      [Row "T4" "X" "A" 1 "d1"; Row "T4" "A" "A" 0x1p60 "d2"; Row "T4" "A" "X" 1 "d3"]
      "T4" {[ "A"; "X" ]} "A"
    = (-1)%float.
Proof. vm_compute. done. Qed.

(** C7, amended: when a cluster is reported as Zero-Risk and the price of
    one of the rows that touch it is changed to a different value, the
    balance of every account other than that row's sender and receiver is
    what it was, and still rounds to 0; the finding disappears exactly when
    the recomputed balance of the sender or of the receiver no longer rounds
    to 0 at eight decimals, and otherwise the same finding is still
    emitted. *)
Theorem C7_price_change_removes_finding_iff
    (set_order : gset account → list account) (tok : token) (scc : gset account)
    (pre post : list row) (r : row) (p' : float) :
  let r' := Row (token_id r) (from_account r) (to_account r) p' (tx_timestamp r) in
  let df := pre ++ r :: post in
  let df' := pre ++ r' :: post in
  touches tok scc r →
  (p' =? price r)%float = false →
  zero_risk_rule set_order tok df scc = [(tok, set_order scc)] →
  (∀ acc, acc ≠ from_account r → acc ≠ to_account r →
     touching_balance df' tok scc acc = touching_balance df tok scc acc
     ∧ round8_is_zero (touching_balance df' tok scc acc) = true)
  ∧ (zero_risk_rule set_order tok df' scc = []
     ↔ round8_is_zero (touching_balance df' tok scc (from_account r)) = false
       ∨ round8_is_zero (touching_balance df' tok scc (to_account r)) = false)
  ∧ (zero_risk_rule set_order tok df' scc ≠ [] →
     zero_risk_rule set_order tok df' scc = [(tok, set_order scc)]).
Proof.
  intros r' df df' Htouch Hchange Hfires.
  destruct (zero_risk_rule_cases set_order tok df scc)
    as [[_ Hzero]|[Hnil _]]; [|by rewrite Hnil in Hfires].
  assert (Hsame : ∀ acc, acc ≠ from_account r → acc ≠ to_account r →
            touching_balance df' tok scc acc = touching_balance df tok scc acc).
  { intros acc Hf Ht. rewrite !touching_balance_net.
    apply net_balance_price_change; congruence. }
  split_and!.
  - intros acc Hf Ht. split; [by apply Hsame|].
    rewrite Hsame by done. rewrite touching_balance_net. apply Hzero.
  - split.
    + intros Hgone.
      destruct (zero_risk_rule_cases set_order tok df' scc)
        as [[Hf _]|[_ [acc Hacc]]]; [by rewrite Hf in Hgone|].
      rewrite <- touching_balance_net in Hacc.
      destruct (decide (acc = from_account r)) as [->|Hf]; [by left|].
      destruct (decide (acc = to_account r)) as [->|Ht]; [by right|].
      rewrite Hsame in Hacc by done. rewrite touching_balance_net in Hacc.
      by rewrite Hzero in Hacc.
    + rewrite !touching_balance_net.
      intros [H|H]; by eapply zero_risk_rule_silent.
  - intros Hne.
    destruct (zero_risk_rule_cases set_order tok df' scc) as [[Hf _]|[Hf _]]; done.
Qed.

(** C7 at work: raising the second price of the table of "T1" from 10 to 12. *)
Lemma C7_price_change_removes_finding_iff_witness :
  let df := [Row "T1" "A" "B" 10 "2021-01-01"; Row "T1" "B" "A" 10 "2021-01-02"] in
  let df' := [Row "T1" "A" "B" 10 "2021-01-01"; Row "T1" "B" "A" 12 "2021-01-02"] in
  (∀ acc, acc ≠ "B" → acc ≠ "A" →
     touching_balance df' "T1" {[ "A"; "B" ]} acc
     = touching_balance df "T1" {[ "A"; "B" ]} acc
     ∧ round8_is_zero (touching_balance df' "T1" {[ "A"; "B" ]} acc) = true)
  ∧ (zero_risk_rule reference_order "T1" df' {[ "A"; "B" ]} = []
     ↔ round8_is_zero (touching_balance df' "T1" {[ "A"; "B" ]} "B") = false
       ∨ round8_is_zero (touching_balance df' "T1" {[ "A"; "B" ]} "A") = false)
  ∧ (zero_risk_rule reference_order "T1" df' {[ "A"; "B" ]} ≠ [] →
     zero_risk_rule reference_order "T1" df' {[ "A"; "B" ]}
     = [("T1", reference_order {[ "A"; "B" ]})]).
Proof.
  apply (C7_price_change_removes_finding_iff reference_order "T1" {[ "A"; "B" ]}
           [Row "T1" "A" "B" 10 "2021-01-01"] [] (Row "T1" "B" "A" 10 "2021-01-02") 12).
  - apply (bool_decide_unpack _). vm_compute. exact I.
  - vm_compute. reflexivity.
  - vm_compute. reflexivity.
Defined.

(** ** Two runs on the same table (claim C8) *)

Section two_runs.
Context (so1 so2 : gset account → list account).
Context (Hso1 : set_order_ok so1) (Hso2 : set_order_ok so2).

Lemma set_orders_Permutation s : so1 s ≡ₚ so2 s.
Proof. by rewrite (Hso1 s), (Hso2 s). Qed.

Lemma subgraph_nodes_Permutation G scc :
  subgraph_nodes so1 G scc ≡ₚ subgraph_nodes so2 G scc.
Proof.
  unfold subgraph_nodes. destruct (_ <? _)%nat; [|done].
  by rewrite set_orders_Permutation.
Qed.

Lemma self_trades_rule_Permutation tok G scc :
  self_trades_rule so1 tok G scc ≡ₚ self_trades_rule so2 tok G scc.
Proof. unfold self_trades_rule. by rewrite subgraph_nodes_Permutation. Qed.

Lemma zero_risk_rule_same tok df scc :
  Forall2 same_cluster_finding
    (zero_risk_rule so1 tok df scc) (zero_risk_rule so2 tok df scc).
Proof.
  unfold zero_risk_rule. destruct (decide _); [|constructor].
  repeat constructor. apply set_orders_Permutation.
Qed.

Lemma Forall2_fmap_same {A B} (R : B → B → Prop) (f g : A → B) (l : list A) :
  (∀ x, R (f x) (g x)) → Forall2 R (f <$> l) (g <$> l).
Proof. intros HR. induction l; csimpl; constructor; auto. Qed.

Lemma common_funder_rule_same tok df scc :
  Forall2 same_funder_finding
    (common_funder_rule so1 tok df scc) (common_funder_rule so2 tok df scc).
Proof.
  unfold common_funder_rule. apply Forall2_fmap_same.
  intros kv. split; [done|]. apply set_orders_Permutation.
Qed.

Lemma repeats_same seen vs :
  Forall2 same_cluster_finding (repeats so1 seen vs) (repeats so2 seen vs).
Proof.
  revert seen. induction vs as [|v vs IH]; intros seen; simpl; [constructor|].
  apply Forall2_app; [|apply IH].
  destruct (decide _); [|constructor].
  repeat constructor. apply set_orders_Permutation.
Qed.

Lemma bind_Permutation_pointwise {A B} (f g : A → list B) (l : list A) :
  (∀ x, f x ≡ₚ g x) → l ≫= f ≡ₚ l ≫= g.
Proof.
  intros Hfg. induction l as [|x l IH]; csimpl; [done|].
  by rewrite (Hfg x), IH.
Qed.

Lemma bind_Forall2_pointwise {A B} (R : B → B → Prop) (f g : A → list B) (l : list A) :
  (∀ x, Forall2 R (f x) (g x)) → Forall2 R (l ≫= f) (l ≫= g).
Proof.
  intros Hfg. induction l as [|x l IH]; csimpl; [constructor|].
  by apply Forall2_app.
Qed.

End two_runs.

(** C8, as stated, fails: the account lists inside the findings follow the
    iteration order of Python sets of strings, which depends on the hash
    seed of the process.  On the table of "T1" a run that iterates {A, B} as
    A, B and a run that iterates it as B, A report different Zero-Risk
    tuples. *)
Lemma C8_account_lists_follow_set_order :
  zero_risk (run reference_order reference_components df_T1) = [("T1", ["A"; "B"])]
  ∧ zero_risk (run reversed_order reference_components df_T1) = [("T1", ["B"; "A"])]
  ∧ set_order_ok reference_order ∧ set_order_ok reversed_order.
Proof.
  split_and!; [by vm_compute | by vm_compute | by intros s |].
  intros s. unfold reversed_order. apply reverse_Permutation.
Qed.

(** C8, amended: two runs on the same table, whatever order each of them
    iterates its sets in, report the same number of findings in every
    category, the same Common-Exit findings, the same Self-Trade findings up
    to their order, and, position by position, Zero-Risk, Common-Funder and
    Repeated-Cluster findings that name the same token (and funder) and the
    same accounts, the account lists being equal up to their order. *)
Theorem C8_runs_agree_up_to_account_order
    (so1 so2 : gset account → list account)
    (strongly_connected_components : DiGraph → list (gset account))
    (df : list row) :
  set_order_ok so1 → set_order_ok so2 →
  let d1 := run so1 strongly_connected_components df in
  let d2 := run so2 strongly_connected_components df in
  (length (self_trades d1) = length (self_trades d2)
   ∧ length (zero_risk d1) = length (zero_risk d2)
   ∧ length (common_funder d1) = length (common_funder d2)
   ∧ length (common_exit d1) = length (common_exit d2)
   ∧ length (repeated_scc d1) = length (repeated_scc d2))
  ∧ self_trades d1 ≡ₚ self_trades d2
  ∧ Forall2 same_cluster_finding (zero_risk d1) (zero_risk d2)
  ∧ Forall2 same_funder_finding (common_funder d1) (common_funder d2)
  ∧ common_exit d1 = common_exit d2
  ∧ Forall2 same_cluster_finding (repeated_scc d1) (repeated_scc d2).
Proof.
  intros Hso1 Hso2 d1 d2.
  assert (Hst : self_trades d1 ≡ₚ self_trades d2
    ∧ Forall2 same_cluster_finding (zero_risk d1) (zero_risk d2)
    ∧ Forall2 same_funder_finding (common_funder d1) (common_funder d2)
    ∧ common_exit d1 = common_exit d2
    ∧ Forall2 same_cluster_finding (repeated_scc d1) (repeated_scc d2)).
  { unfold d1, d2, run. rewrite !run_state_visits.
    set (vs := component_visits strongly_connected_components df).
    set (st0 := State no_detections ∅).
    rewrite !fold_visits_repeated.
    destruct (fold_visits_found so1 df vs st0) as (-> & -> & -> & ->).
    destruct (fold_visits_found so2 df vs st0) as (-> & -> & -> & ->).
    simpl. split_and!.
    - apply bind_Permutation_pointwise. intros v.
      by apply self_trades_rule_Permutation.
    - apply bind_Forall2_pointwise. intros v. by apply zero_risk_rule_same.
    - apply bind_Forall2_pointwise. intros v. by apply common_funder_rule_same.
    - done.
    - by apply repeats_same. }
  destruct Hst as (H1 & H2 & H3 & H4 & H5). split; [|done].
  split_and!.
  - by rewrite H1.
  - by eapply Forall2_length.
  - by eapply Forall2_length.
  - by rewrite H4.
  - by eapply Forall2_length.
Qed.

(** C8 at work: the two set orders of the counterexample. *)
Lemma C8_runs_agree_up_to_account_order_witness :
  let d1 := run reference_order reference_components df_two_tokens in
  let d2 := run reversed_order reference_components df_two_tokens in
  (length (self_trades d1) = length (self_trades d2)
   ∧ length (zero_risk d1) = length (zero_risk d2)
   ∧ length (common_funder d1) = length (common_funder d2)
   ∧ length (common_exit d1) = length (common_exit d2)
   ∧ length (repeated_scc d1) = length (repeated_scc d2))
  ∧ self_trades d1 ≡ₚ self_trades d2
  ∧ Forall2 same_cluster_finding (zero_risk d1) (zero_risk d2)
  ∧ Forall2 same_funder_finding (common_funder d1) (common_funder d2)
  ∧ common_exit d1 = common_exit d2
  ∧ Forall2 same_cluster_finding (repeated_scc d1) (repeated_scc d2).
Proof.
  apply (C8_runs_agree_up_to_account_order reference_order reversed_order
           reference_components df_two_tokens).
  - intros s. reflexivity.
  - intros s. unfold reversed_order. apply reverse_Permutation.
Defined.
